(** * Deposit interest calculator: the calculation engine

    A shallow embedding of [interest-calculator.ts] (day counting, tier
    splitting, period interest and the month-by-month engine) together with
    the copy of the tier splitter kept by the daily breakdown table, and the
    properties of the engine's ledger.

    Modelling conventions.
    - A [Decimal] is an exact rational: decimal.js is configured with 50
      significant digits, and every statement below is about operands whose
      sums, products and quotients are represented without rounding.
    - Tier fields are strings, as in [InterestTier]; [Decimal_of_string] and
      [parseFloat] read plain decimal notation (sign, digits, one point).
      Exponent, hexadecimal and [Infinity]/[NaN] spellings are outside the
      grammar read here.
    - A JavaScript [Date] is a calendar date at midnight in a UTC
      environment; [valueOf] is its day number and dates are compared through
      it, as [<=] on [Date] objects compares time values.
    - A thrown [DecimalError] is the [Throw] outcome of the [result] monad.
    - The engine is given twice: as a function of the tiers, and as a
      computation on a store that holds the caller's tiers array, which
      shows what a call leaves behind for the next one. *)

From Stdlib Require Import ZArith QArith List String Ascii Bool Lia Lqa.
From Stdlib Require Import Permutation Sorted DecimalString.
Import ListNotations.

Local Open Scope Z_scope.

(** ** Outcomes *)

Inductive error : Type :=
| DecimalError
| LoopBudget.

Inductive result (A : Type) : Type :=
| Ok (a : A)
| Throw (e : error).

Arguments Ok {A} a.
Arguments Throw {A} e.

Definition bind {A B : Type} (r : result A) (k : A -> result B) : result B :=
  match r with
  | Ok a => k a
  | Throw e => Throw e
  end.

Notation "x <- r ;; k" := (bind r (fun x => k))
  (at level 61, r at next level, right associativity).

(** ** Decimal values and their string forms *)

Definition Decimal : Type := Q.

Definition is_digit (c : ascii) : bool :=
  let n := N_of_ascii c in ((48 <=? n) && (n <=? 57))%N.

Definition digit_val (c : ascii) : Z := Z.of_N (N_of_ascii c) - 48.

Fixpoint span_digits (s : string) : list ascii * string :=
  match s with
  | EmptyString => ([], EmptyString)
  | String c r =>
      if is_digit c
      then let (ds, rest) := span_digits r in (c :: ds, rest)
      else ([], s)
  end.

Definition digits_val (ds : list ascii) : Z :=
  fold_left (fun acc c => 10 * acc + digit_val c) ds 0.

Definition strip_sign (s : string) : Z * string :=
  match s with
  | String "-"%char r => (-1, r)
  | String "+"%char r => (1, r)
  | _ => (1, s)
  end.

Definition mk_decimal (sgn : Z) (ip fp : list ascii) : Q :=
  inject_Z (sgn * digits_val (ip ++ fp)%list)
  / inject_Z (10 ^ Z.of_nat (List.length fp)).

(** The longest numeric prefix of a string and what follows it. *)
Definition numeric_prefix (s : string) : option (Q * string) :=
  let (sgn, body) := strip_sign s in
  let (ip, r1) := span_digits body in
  match r1 with
  | String "."%char r2 =>
      let (fp, r3) := span_digits r2 in
      match ip, fp with
      | [], [] => None
      | _, _ => Some (mk_decimal sgn ip fp, r3)
      end
  | _ =>
      match ip with
      | [] => None
      | _ => Some (mk_decimal sgn ip [], r1)
      end
  end.

(** [new Decimal(s)]: the whole string has to be numeric. *)
Definition Decimal_of_string (s : string) : result Decimal :=
  match numeric_prefix s with
  | Some (q, EmptyString) => Ok q
  | _ => Throw DecimalError
  end.

Definition is_space (c : ascii) : bool :=
  let n := N_of_ascii c in ((n =? 32) || ((9 <=? n) && (n <=? 13)))%N.

Fixpoint skip_spaces (s : string) : string :=
  match s with
  | EmptyString => EmptyString
  | String c r => if is_space c then skip_spaces r else s
  end.

(** [parseFloat(s)]: the numeric prefix after leading white space; [None]
    is [NaN]. *)
Definition parseFloat (s : string) : option Q :=
  option_map fst (numeric_prefix (skip_spaces s)).

(** Truthiness of a string: only the empty string is falsy. *)
Definition truthy (s : string) : bool :=
  match s with
  | EmptyString => false
  | _ => true
  end.

(** ** Calendar dates *)

Record Date : Type := mkDate { year : Z; month : Z; day : Z }.

Definition isLeapYear (y : Z) : bool :=
  ((y mod 4 =? 0) && negb (y mod 100 =? 0)) || (y mod 400 =? 0).

Definition getDaysInYear (y : Z) : Z :=
  if isLeapYear y then 366 else 365.

(** Months are numbered from 0, as [getMonth] does. *)
Definition daysInMonth (y m : Z) : Z :=
  if m =? 1 then (if isLeapYear y then 29 else 28)
  else if (m =? 3) || (m =? 5) || (m =? 8) || (m =? 10) then 30
  else 31.

Definition valid_date (d : Date) : Prop :=
  0 <= month d <= 11 /\ 1 <= day d <= daysInMonth (year d) (month d).

Definition valid_dateb (d : Date) : bool :=
  (0 <=? month d) && (month d <=? 11) && (1 <=? day d)
  && (day d <=? daysInMonth (year d) (month d)).

(** Day number of a date (days since 1970-01-01). *)
Definition valueOf (d : Date) : Z :=
  let m1 := month d + 1 in
  let y := if m1 <=? 2 then year d - 1 else year d in
  let mp := if m1 <=? 2 then m1 + 9 else m1 - 3 in
  365 * y + y / 4 - y / 100 + y / 400 + (153 * mp + 2) / 5 + day d - 1 - 719468.

Definition Date_leb (a b : Date) : bool := valueOf a <=? valueOf b.
Definition Date_gtb (a b : Date) : bool := valueOf b <? valueOf a.

Definition next_day (d : Date) : Date :=
  if day d <? daysInMonth (year d) (month d)
  then mkDate (year d) (month d) (day d + 1)
  else if month d <? 11
       then mkDate (year d) (month d + 1) 1
       else mkDate (year d + 1) 0 1.

Definition prev_day (d : Date) : Date :=
  if 1 <? day d
  then mkDate (year d) (month d) (day d - 1)
  else if 0 <? month d
       then mkDate (year d) (month d - 1) (daysInMonth (year d) (month d - 1))
       else mkDate (year d - 1) 11 31.

Definition addDays (n : Z) (d : Date) : Date :=
  if 0 <=? n
  then Nat.iter (Z.to_nat n) next_day d
  else Nat.iter (Z.to_nat (- n)) prev_day d.

(** [MakeDay(y, m, dt)]: month and day numbers out of range carry over. *)
Definition MakeDay (y m dt : Z) : Date :=
  addDays (dt - 1) (mkDate (y + m / 12) (m mod 12) 1).

(** [new Date(y, m, dt)]: a year from 0 to 99 means 1900 + year. *)
Definition Date_new (y m dt : Z) : Date :=
  let yr := if (0 <=? y) && (y <=? 99) then 1900 + y else y in
  MakeDay yr m dt.

Definition setDate (d : Date) (dt : Z) : Date := MakeDay (year d) (month d) dt.
Definition setMonth (d : Date) (m : Z) : Date := MakeDay (year d) m (day d).

(** ** Day counting *)

(** The loop of [calculateDays]; [fuel] bounds the number of iterations. *)
Fixpoint calculateDays_loop (fuel : nat) (currentDate endd : Date)
    (totalDays : Z) : result Z :=
  if Date_leb currentDate endd
  then match fuel with
       | O => Throw LoopBudget
       | S fuel' =>
           calculateDays_loop fuel' (setDate currentDate (day currentDate + 1))
             endd (totalDays + 1)
       end
  else Ok totalDays.

(** The budget is the length of the range in days, which the loop never
    exceeds on calendar dates. *)
Definition calculateDays (startDate endDate : Date) : result Z :=
  calculateDays_loop (Z.to_nat (valueOf endDate - valueOf startDate + 1))
    startDate endDate 0.

(** ** Tiers and the tier splitter *)

Module InterestTier.
Record t : Type := mk { min : string; max : string; rate : string }.
End InterestTier.

(** [amount] and [interest] hold the decimal whose [toString] the source
    stores; every reader passes the string back to [new Decimal]. *)
Module TierResult.
Record t : Type :=
  mk { min : string; max : string; rate : string;
       amount : Decimal; interest : Decimal }.
End TierResult.

Definition Qltb (a b : Q) : bool := negb (Qle_bool b a).

Definition Decimal_min (a b : Decimal) : Decimal :=
  if Qltb b a then b else a.

(** The comparator [parseFloat(a.min) - parseFloat(b.min)] does not put [a]
    after [b]: its value is negative, zero or [NaN]. *)
Definition tier_before (a b : InterestTier.t) : bool :=
  match parseFloat (InterestTier.min a), parseFloat (InterestTier.min b) with
  | Some x, Some y => Qle_bool x y
  | _, _ => true
  end.

Fixpoint insert_tier (a : InterestTier.t) (l : list InterestTier.t)
    : list InterestTier.t :=
  match l with
  | [] => [a]
  | b :: r => if tier_before a b then a :: l else b :: insert_tier a r
  end.

(** [[...tiers].sort(...)]: a stable sort of a copy. *)
Definition sortTiers (tiers : list InterestTier.t) : list InterestTier.t :=
  fold_right insert_tier [] tiers.

Definition tier_max_of (tier : InterestTier.t) : result (option Decimal) :=
  if truthy (InterestTier.max tier)
  then (m <- Decimal_of_string (InterestTier.max tier) ;; Ok (Some m))
  else Ok None.

Definition tier_amount (totalAmount processedAmount tierMin : Decimal)
    (tierMax : option Decimal) : Decimal :=
  match tierMax with
  | Some mx =>
      let remainingAmount := totalAmount - processedAmount in
      let maxCanPlace := mx - processedAmount in
      Decimal_min maxCanPlace remainingAmount
  | None =>
      if Qle_bool tierMin totalAmount
      then totalAmount - processedAmount
      else 0
  end%Q.

Definition tier_entry (tier : InterestTier.t) (tierAmount : Decimal)
    : TierResult.t :=
  TierResult.mk (InterestTier.min tier) (InterestTier.max tier)
    (InterestTier.rate tier) tierAmount 0%Q.

(** The [for] loop of the engine's [splitAmountByTiers]. *)
Fixpoint split_loop (totalAmount : Decimal) (sortedTiers : list InterestTier.t)
    (processedAmount : Decimal) : result (list TierResult.t) :=
  match sortedTiers with
  | [] => Ok []
  | tier :: rest =>
      tierMin <- Decimal_of_string (InterestTier.min tier) ;;
      tierMax <- tier_max_of tier ;;
      if Qle_bool totalAmount processedAmount then Ok []
      else if Qltb totalAmount tierMin
      then split_loop totalAmount rest processedAmount
      else
        let tierAmount :=
          tier_amount totalAmount processedAmount tierMin tierMax in
        if Qltb 0 tierAmount
        then (more <- split_loop totalAmount rest
                        (processedAmount + tierAmount)%Q ;;
              Ok (tier_entry tier tierAmount :: more))
        else split_loop totalAmount rest processedAmount
  end.

(** The splitter past [new Decimal(amount)]. *)
Definition splitDecimalByTiers (totalAmount : Decimal)
    (tiers : list InterestTier.t) : result (list TierResult.t) :=
  split_loop totalAmount (sortTiers tiers) 0%Q.

Definition splitAmountByTiers (amount : string) (tiers : list InterestTier.t)
    : result (list TierResult.t) :=
  totalAmount <- Decimal_of_string amount ;;
  splitDecimalByTiers totalAmount tiers.

(** The copy of the splitter in the daily breakdown table. Its entries have
    no [interest] field; they are [TierResult.t] values with interest 0. *)
Module DailyBreakdownTable.

Definition tier_before (a b : InterestTier.t) : bool :=
  let key s := parseFloat (if truthy s then s else "0"%string) in
  match key (InterestTier.min a), key (InterestTier.min b) with
  | Some x, Some y => Qle_bool x y
  | _, _ => true
  end.

Fixpoint insert_tier (a : InterestTier.t) (l : list InterestTier.t)
    : list InterestTier.t :=
  match l with
  | [] => [a]
  | b :: r => if tier_before a b then a :: l else b :: insert_tier a r
  end.

Definition sortTiers (tiers : list InterestTier.t) : list InterestTier.t :=
  fold_right insert_tier [] tiers.

Fixpoint split_loop (totalAmount : Decimal)
    (sortedTiers : list InterestTier.t) (processedAmount : Decimal)
    : result (list TierResult.t) :=
  match sortedTiers with
  | [] => Ok []
  | tier :: rest =>
      if negb (truthy (InterestTier.min tier))
         || negb (truthy (InterestTier.rate tier))
      then split_loop totalAmount rest processedAmount
      else
        tierMin <- Decimal_of_string (InterestTier.min tier) ;;
        tierMax <- tier_max_of tier ;;
        if Qle_bool totalAmount processedAmount then Ok []
        else if Qltb totalAmount tierMin
        then split_loop totalAmount rest processedAmount
        else
          let tierAmount :=
            tier_amount totalAmount processedAmount tierMin tierMax in
          if Qltb 0 tierAmount
          then (more <- split_loop totalAmount rest
                          (processedAmount + tierAmount)%Q ;;
                Ok (tier_entry tier tierAmount :: more))
          else split_loop totalAmount rest processedAmount
  end.

(** [amount.trim() === '']. *)
Fixpoint isBlank (s : string) : bool :=
  match s with
  | EmptyString => true
  | String c r => is_space c && isBlank r
  end.

Definition splitAmountByTiers (amount : string)
    (tiers : list InterestTier.t) : result (list TierResult.t) :=
  if negb (truthy amount) || isBlank amount
     || match parseFloat amount with None => true | Some _ => false end
  then Ok []
  else
    totalAmount <- Decimal_of_string amount ;;
    split_loop totalAmount (sortTiers tiers) 0%Q.

End DailyBreakdownTable.

(** ** Period interest *)

Inductive InterestType : Type := simple | compound.
Inductive ApplyType : Type := daily | monthly | biannually | annually.

Definition calculateSimpleInterest (principal : Decimal) (rate : string)
    (days : Z) : result Decimal :=
  r <- Decimal_of_string rate ;;
  let P := principal in
  let R := (r / 100)%Q in
  let D := inject_Z days in
  Ok (P * R * (D / 365))%Q.

Section Engine.

(** [Decimal.pow] for an exponent that is not an integer (the exponential
    of the exponent times the logarithm of the base), which decimal.js
    computes and this development takes as given. *)
Variable pow_frac : Decimal -> Decimal -> Decimal.

(** [Decimal.pow(x, y)] for [y >= 0]: 1 for a zero exponent, 0 for a zero
    base, repeated multiplication for an integer exponent. *)
Definition Decimal_pow (x y : Decimal) : Decimal :=
  if Qeq_bool y 0 then 1%Q
  else if Qeq_bool x 0 then 0%Q
  else let y' := Qred y in
       if (Zpos (Qden y') =? 1)%Z then Qpower x (Qnum y')
       else pow_frac x y.

Definition calculateCompoundInterest (principal : Decimal) (rate : string)
    (days : Z) : result Decimal :=
  r <- Decimal_of_string rate ;;
  let P := principal in
  let R := (r / 100)%Q in
  let years := (inject_Z days / 365)%Q in
  let A := (P * Decimal_pow (1 + R) years)%Q in
  Ok (A - P)%Q.

Definition periodInterest (interestType : InterestType)
    (amount : Decimal) (rate : string) (days : Z) : result Decimal :=
  match interestType with
  | simple => calculateSimpleInterest amount rate days
  | compound => calculateCompoundInterest amount rate days
  end.

(** ** The ledger *)

Record MonthInfo : Type :=
  mkMonthInfo { monthStart : Date; monthEnd : Date; displayMonth : string }.

Record MonthlyBreakdown : Type :=
  mkMonthlyBreakdown {
    date : string;
    days : Z;
    balance : Decimal;
    interest : Decimal;
    cumulative : Decimal;
    accrued : Decimal;
    applied : bool }.

Record CalculationResult : Type :=
  mkCalculationResult {
    totalInterest : Decimal;
    finalAmount : Decimal;
    accruedInterest : Decimal;
    breakdown : list MonthlyBreakdown;
    tierResults : list TierResult.t;
    totalDays : Z }.

Definition monthName (m : Z) : string :=
  nth (Z.to_nat m)
    ["January"; "February"; "March"; "April"; "May"; "June"; "July";
     "August"; "September"; "October"; "November"; "December"]%string
    EmptyString.

(** [toLocaleDateString('en-US', { year: 'numeric', month: 'long' })]. *)
Definition toLocaleMonthYear (d : Date) : string :=
  (monthName (month d) ++ " "
   ++ NilZero.string_of_int (Z.to_int (year d)))%string.

(** The loop that generates [monthlyData]. *)
Fixpoint monthlyData_loop (fuel : nat) (tempDate endd : Date)
    : result (list MonthInfo) :=
  if Date_leb tempDate endd
  then match fuel with
       | O => Throw LoopBudget
       | S fuel' =>
           let mStart := tempDate in
           let mEnd := Date_new (year mStart) (month mStart + 1) 0 in
           let actualEnd := if Date_gtb mEnd endd then endd else mEnd in
           more <- monthlyData_loop fuel'
                     (setMonth tempDate (month tempDate + 1)) endd ;;
           Ok (mkMonthInfo mStart actualEnd (toLocaleMonthYear mStart)
                 :: more)
       end
  else Ok [].

(** Each month advances [tempDate] by 28 days at least, so the length of
    the range in days is budget enough. *)
Definition monthlyData (start endd : Date) : result (list MonthInfo) :=
  let tempDate := Date_new (year start) (month start) 1 in
  monthlyData_loop (Z.to_nat (valueOf endd - valueOf tempDate + 1))
    tempDate endd.

(** Interest of one period summed over the tier split. *)
Fixpoint sumInterest (interestType : InterestType)
    (tierSplit : list TierResult.t) (daysInMonth : Z)
    (monthInterest : Decimal) : result Decimal :=
  match tierSplit with
  | [] => Ok monthInterest
  | tierData :: rest =>
      i <- periodInterest interestType (TierResult.amount tierData)
             (TierResult.rate tierData) daysInMonth ;;
      sumInterest interestType rest daysInMonth (monthInterest + i)%Q
  end.

Definition shouldApply (applyType : ApplyType) (mEnd endd : Date) : bool :=
  match applyType with
  | daily => true
  | monthly =>
      let nextMonthStart := Date_new (year mEnd) (month mEnd + 1) 1 in
      Date_leb nextMonthStart endd
  | biannually => (month mEnd =? 5) || (month mEnd =? 11)
  | annually => month mEnd =? 11
  end.

(** The accumulators of [calculateInterest]; [accruedSoFar] is its local
    [accruedInterest]. *)
Record Accumulators : Type :=
  mkAccumulators {
    currentBalance : Decimal;
    cumulativeInterest : Decimal;
    accruedSoFar : Decimal }.

(** The loop over [monthlyData]. *)
Fixpoint processMonths (tiers : list InterestTier.t)
    (interestType : InterestType) (applyType : ApplyType) (endd : Date)
    (months : list MonthInfo) (acc : Accumulators)
    : result (Accumulators * list MonthlyBreakdown) :=
  match months with
  | [] => Ok (acc, [])
  | monthInfo :: rest =>
      daysInMonth <- calculateDays (monthStart monthInfo)
                       (monthEnd monthInfo) ;;
      tierSplit <- splitDecimalByTiers (currentBalance acc) tiers ;;
      monthInterest <- sumInterest interestType tierSplit daysInMonth 0%Q ;;
      if shouldApply applyType (monthEnd monthInfo) endd
      then
        let totalApplyInterest := (accruedSoFar acc + monthInterest)%Q in
        let cumulative' :=
          (cumulativeInterest acc + totalApplyInterest)%Q in
        let balance' := (currentBalance acc + totalApplyInterest)%Q in
        let row :=
          mkMonthlyBreakdown (displayMonth monthInfo) daysInMonth balance'
            monthInterest cumulative' 0%Q true in
        r <- processMonths tiers interestType applyType endd rest
               (mkAccumulators balance' cumulative' 0%Q) ;;
        Ok (fst r, row :: snd r)
      else
        let accrued' := (accruedSoFar acc + monthInterest)%Q in
        let row :=
          mkMonthlyBreakdown (displayMonth monthInfo) daysInMonth
            (currentBalance acc) monthInterest
            (cumulativeInterest acc + accrued')%Q accrued' false in
        r <- processMonths tiers interestType applyType endd rest
               (mkAccumulators (currentBalance acc)
                  (cumulativeInterest acc) accrued') ;;
        Ok (fst r, row :: snd r)
  end.

(** [tierSplit.map(...)] at the end of [calculateInterest]. *)
Fixpoint tierInterests (interestType : InterestType)
    (tierSplit : list TierResult.t) (days : Z)
    : result (list TierResult.t) :=
  match tierSplit with
  | [] => Ok []
  | tierData :: rest =>
      i <- periodInterest interestType (TierResult.amount tierData)
             (TierResult.rate tierData) days ;;
      more <- tierInterests interestType rest days ;;
      Ok (TierResult.mk (TierResult.min tierData) (TierResult.max tierData)
            (TierResult.rate tierData) (TierResult.amount tierData) i
            :: more)
  end.

(** The ledger loop of [calculateInterest] with its accumulators. *)
Definition runLedger (depositAmount : string) (startDate endDate : Date)
    (tiers : list InterestTier.t) (interestType : InterestType)
    (applyType : ApplyType)
    : result (Z * Accumulators * list MonthlyBreakdown) :=
  principal <- Decimal_of_string depositAmount ;;
  days <- calculateDays startDate endDate ;;
  months <- monthlyData startDate endDate ;;
  r <- processMonths tiers interestType applyType endDate months
         (mkAccumulators principal 0%Q 0%Q) ;;
  Ok (days, fst r, snd r).

Definition calculateInterest (depositAmount : string)
    (startDate endDate : Date) (tiers : list InterestTier.t)
    (interestType : InterestType) (applyType : ApplyType)
    : result CalculationResult :=
  r <- runLedger depositAmount startDate endDate tiers interestType
         applyType ;;
  let '(days, acc, rows) := r in
  tierSplit <- splitAmountByTiers depositAmount tiers ;;
  results <- tierInterests interestType tierSplit days ;;
  Ok (mkCalculationResult
        (cumulativeInterest acc + accruedSoFar acc)%Q
        (currentBalance acc + accruedSoFar acc)%Q
        (accruedSoFar acc)
        rows results days).

End Engine.

(** ** The engine over a shared tiers array *)

(** Arrays of tiers live in a store and are passed by reference, as the
    [tiers] array of the caller is: a call that sorted it in place would
    change what the next call reads. *)
Definition ref : Type := nat.
Definition Store : Type := list (list InterestTier.t).

Definition deref (h : Store) (r : ref) : list InterestTier.t := nth r h [].

Fixpoint assign (h : Store) (r : ref) (a : list InterestTier.t) : Store :=
  match h, r with
  | [], _ => []
  | _ :: rest, O => a :: rest
  | b :: rest, S r' => b :: assign rest r' a
  end.

Definition Stateful (A : Type) : Type := Store -> Store * result A.

Definition bindS {A B : Type} (m : Stateful A) (k : A -> Stateful B)
    : Stateful B :=
  fun h =>
    match m h with
    | (h', Ok a) => k a h'
    | (h', Throw e) => (h', Throw e)
    end.

Definition liftS {A : Type} (r : result A) : Stateful A := fun h => (h, r).

Notation "x <~ m ;; k" := (bindS m (fun x => k))
  (at level 61, m at next level, right associativity).

(** [[...tiers]]: a new array with the elements of [tiers]. *)
Definition spread (tiers : ref) : Stateful ref :=
  fun h => ((h ++ [deref h tiers])%list, Ok (List.length h)).

(** [Array.prototype.sort]: sorts the array in place and returns it. *)
Definition Array_sort (a : ref) : Stateful ref :=
  fun h => (assign h a (sortTiers (deref h a)), Ok a).

Definition readArray (a : ref) : Stateful (list InterestTier.t) :=
  fun h => (h, Ok (deref h a)).

Definition splitDecimalByTiersS (totalAmount : Decimal) (tiers : ref)
    : Stateful (list TierResult.t) :=
  copy <~ spread tiers ;;
  sortedTiers <~ Array_sort copy ;;
  elements <~ readArray sortedTiers ;;
  liftS (split_loop totalAmount elements 0%Q).

Section SharedEngine.

Variable pow_frac : Decimal -> Decimal -> Decimal.

Fixpoint processMonthsS (tiers : ref) (interestType : InterestType)
    (applyType : ApplyType) (endd : Date) (months : list MonthInfo)
    (acc : Accumulators)
    : Stateful (Accumulators * list MonthlyBreakdown) :=
  match months with
  | [] => liftS (Ok (acc, []))
  | monthInfo :: rest =>
      daysInMonth <~ liftS (calculateDays (monthStart monthInfo)
                              (monthEnd monthInfo)) ;;
      tierSplit <~ splitDecimalByTiersS (currentBalance acc) tiers ;;
      monthInterest <~ liftS (sumInterest pow_frac interestType tierSplit
                                daysInMonth 0%Q) ;;
      if shouldApply applyType (monthEnd monthInfo) endd
      then
        let totalApplyInterest := (accruedSoFar acc + monthInterest)%Q in
        let cumulative' :=
          (cumulativeInterest acc + totalApplyInterest)%Q in
        let balance' := (currentBalance acc + totalApplyInterest)%Q in
        let row :=
          mkMonthlyBreakdown (displayMonth monthInfo) daysInMonth balance'
            monthInterest cumulative' 0%Q true in
        r <~ processMonthsS tiers interestType applyType endd rest
               (mkAccumulators balance' cumulative' 0%Q) ;;
        liftS (Ok (fst r, row :: snd r))
      else
        let accrued' := (accruedSoFar acc + monthInterest)%Q in
        let row :=
          mkMonthlyBreakdown (displayMonth monthInfo) daysInMonth
            (currentBalance acc) monthInterest
            (cumulativeInterest acc + accrued')%Q accrued' false in
        r <~ processMonthsS tiers interestType applyType endd rest
               (mkAccumulators (currentBalance acc)
                  (cumulativeInterest acc) accrued') ;;
        liftS (Ok (fst r, row :: snd r))
  end.

(** [calculateInterest] called with a reference to the caller's array. *)
Definition calculateInterestS (depositAmount : string)
    (startDate endDate : Date) (tiers : ref)
    (interestType : InterestType) (applyType : ApplyType)
    : Stateful CalculationResult :=
  principal <~ liftS (Decimal_of_string depositAmount) ;;
  days <~ liftS (calculateDays startDate endDate) ;;
  months <~ liftS (monthlyData startDate endDate) ;;
  r <~ processMonthsS tiers interestType applyType endDate months
         (mkAccumulators principal 0%Q 0%Q) ;;
  total <~ liftS (Decimal_of_string depositAmount) ;;
  tierSplit <~ splitDecimalByTiersS total tiers ;;
  results <~ liftS (tierInterests pow_frac interestType tierSplit days) ;;
  liftS (Ok (mkCalculationResult
               (cumulativeInterest (fst r) + accruedSoFar (fst r))%Q
               (currentBalance (fst r) + accruedSoFar (fst r))%Q
               (accruedSoFar (fst r))
               (snd r) results days)).

End SharedEngine.

(** [h'] keeps every array of [h] as it is. *)
Definition preserves (h h' : Store) : Prop :=
  (List.length h <= List.length h')%nat
  /\ forall r, (r < List.length h)%nat -> deref h' r = deref h r.

(** ** Vocabulary of the statements *)

(** First day of the month after month [m] of year [y]. *)
Definition nextMonthFirst (y m : Z) : Date :=
  if m <? 11 then mkDate y (m + 1) 1 else mkDate (y + 1) 0 1.

Definition lastOfMonth (y m : Z) : Date := mkDate y m (daysInMonth y m).

Definition segmentEnd (y m : Z) (endd : Date) : Date :=
  if Date_gtb (lastOfMonth y m) endd then endd else lastOfMonth y m.

(** The month segments from month [m] of year [y] up to [endd]. *)
Inductive segments (endd : Date) : Z -> Z -> list MonthInfo -> Prop :=
| seg_nil (y m : Z) :
    valueOf endd < valueOf (mkDate y m 1) -> segments endd y m []
| seg_cons (y m : Z) (rest : list MonthInfo) :
    100 <= y -> 0 <= m <= 11 ->
    valueOf (mkDate y m 1) <= valueOf endd ->
    segments endd (year (nextMonthFirst y m)) (month (nextMonthFirst y m))
      rest ->
    segments endd y m
      (mkMonthInfo (mkDate y m 1) (segmentEnd y m endd)
         (toLocaleMonthYear (mkDate y m 1)) :: rest).

(** [true] for every element of a list but the last. *)
Fixpoint lastFlags {A : Type} (l : list A) : list bool :=
  match l with
  | [] => []
  | _ :: r => match r with [] => false | _ :: _ => true end :: lastFlags r
  end.

Definition segmentDays (mi : MonthInfo) : Z :=
  valueOf (monthEnd mi) - valueOf (monthStart mi) + 1.

Local Open Scope Q_scope.

Definition allocated (l : list TierResult.t) : Q :=
  fold_right Qplus 0 (map TierResult.amount l).

Definition parses (s : string) : bool :=
  match Decimal_of_string s with
  | Ok _ => true
  | Throw _ => false
  end.

(** A contiguous tier set from [lo] upwards: each band starts where the one
    before it ends and the last band has no upper bound. *)
Inductive chain : Q -> list InterestTier.t -> Prop :=
| chain_last (lo lo' : Q) (t : InterestTier.t) :
    Decimal_of_string (InterestTier.min t) = Ok lo' -> lo' == lo ->
    truthy (InterestTier.max t) = false ->
    chain lo [t]
| chain_cons (lo lo' hi : Q) (t : InterestTier.t)
    (rest : list InterestTier.t) :
    Decimal_of_string (InterestTier.min t) = Ok lo' -> lo' == lo ->
    truthy (InterestTier.max t) = true ->
    Decimal_of_string (InterestTier.max t) = Ok hi ->
    lo < hi ->
    chain hi rest ->
    chain lo (t :: rest).

(** The same, decided: bands [[min, max)] that start at [lo], each one
    starting where the one before it ends, the last one open-ended. *)
Fixpoint contiguousFrom (lo : Q) (tiers : list InterestTier.t) : bool :=
  match tiers with
  | [] => false
  | t :: rest =>
      match Decimal_of_string (InterestTier.min t) with
      | Ok lo' =>
          Qeq_bool lo' lo
          && match rest with
             | [] => negb (truthy (InterestTier.max t))
             | _ :: _ =>
                 truthy (InterestTier.max t)
                 && match Decimal_of_string (InterestTier.max t) with
                    | Ok hi => Qltb lo hi && contiguousFrom hi rest
                    | Throw _ => false
                    end
             end
      | Throw _ => false
      end
  end.

(** Numeric [min] and empty or numeric [max]: all the splitter reads. *)
Definition boundsParse (t : InterestTier.t) : bool :=
  parses (InterestTier.min t)
  && (negb (truthy (InterestTier.max t)) || parses (InterestTier.max t)).

Definition tier_lt (a b : InterestTier.t) : Prop :=
  match parseFloat (InterestTier.min a), parseFloat (InterestTier.min b) with
  | Some x, Some y => x < y
  | _, _ => False
  end.

Definition sumQ (l : list Q) : Q := fold_right Qplus 0 l.

(** Ledger rows whose [cumulative] fields continue the running total
    [base] of interest earned so far. *)
Fixpoint ledger_from (base : Q) (rows : list MonthlyBreakdown) : Prop :=
  match rows with
  | [] => True
  | row :: rest =>
      cumulative row == base + interest row
      /\ (applied row = true -> accrued row == 0)
      /\ ledger_from (cumulative row) rest
  end.

(** What the input form guarantees of a tier: numeric [min] and [rate], and
    a [max] that is empty or numeric. *)
Definition wellFormedTier (t : InterestTier.t) : bool :=
  parses (InterestTier.min t)
  && (negb (truthy (InterestTier.max t)) || parses (InterestTier.max t))
  && parses (InterestTier.rate t).

Definition rateParses (e : TierResult.t) : Prop :=
  parses (TierResult.rate e) = true.

(** The year that [new Date(y, m, dt)] takes for [y]. *)
Definition centuryYear (y : Z) : Z :=
  if ((0 <=? y) && (y <=? 99))%Z then (1900 + y)%Z else y.

(** A request as the input form passes it on: a numeric deposit, calendar
    dates of the common era and well-formed tiers. *)
Definition validRequest (depositAmount : string) (startDate endDate : Date)
    (tiers : list InterestTier.t) : Prop :=
  parses depositAmount = true
  /\ valid_date startDate /\ valid_date endDate
  /\ (0 <= year startDate)%Z
  /\ forallb wellFormedTier tiers = true.

(** Sample data for the runs below: a stand-in for the fractional power
    (not reached with simple interest) and a two-band tier set. *)
Definition samplePow : Decimal -> Decimal -> Decimal := fun _ _ => 1.

(** A tier without an upper bound. *)
Definition openTier (min rate : string) : InterestTier.t :=
  InterestTier.mk min EmptyString rate.

Definition sampleTiers : list InterestTier.t :=
  [InterestTier.mk "0" "1000000.00" "2.00";
   InterestTier.mk "1000000.00" EmptyString "0.50"]%string.

Local Close Scope Q_scope.

(** * Calendar and day counting *)

Lemma month_cases (m : Z) :
  0 <= m <= 11 ->
  m = 0 \/ m = 1 \/ m = 2 \/ m = 3 \/ m = 4 \/ m = 5 \/ m = 6 \/ m = 7 \/
  m = 8 \/ m = 9 \/ m = 10 \/ m = 11.
Proof. lia. Qed.

Lemma isLeapYear_spec (y : Z) :
  isLeapYear y = true <->
  (y mod 4 = 0 /\ y mod 100 <> 0) \/ y mod 400 = 0.
Proof.
  unfold isLeapYear.
  rewrite orb_true_iff, andb_true_iff, negb_true_iff, !Z.eqb_eq, Z.eqb_neq.
  tauto.
Qed.

Ltac split_months H :=
  destruct (month_cases _ H) as
    [?|[?|[?|[?|[?|[?|[?|[?|[?|[?|[?|?]]]]]]]]]]]; subst.

Ltac leap_cases y :=
  let L := fresh "L" in
  destruct (isLeapYear y) eqn:L;
  [ pose proof (proj1 (isLeapYear_spec y) L)
  | assert (~ ((y mod 4 = 0 /\ y mod 100 <> 0) \/ y mod 400 = 0))
      by (rewrite <- isLeapYear_spec; congruence) ].

Local Opaque Z.mul Z.div Z.modulo.

Lemma valueOf_next_day (d : Date) :
  valid_date d -> valueOf (next_day d) = valueOf d + 1.
Proof.
  destruct d as [y m dd]. unfold valid_date, next_day, valueOf, daysInMonth.
  cbn [year month day]. intros [Hm Hd].
  split_months Hm; cbn in *; leap_cases y;
    repeat match goal with
           | |- context [if ?a <? ?b then _ else _] =>
               destruct (Z.ltb_spec a b); cbn
           end;
    try lia; Z.div_mod_to_equations; lia.
Qed.

Lemma valid_next_day (d : Date) : valid_date d -> valid_date (next_day d).
Proof.
  destruct d as [y m dd]. unfold valid_date, next_day, daysInMonth.
  cbn [year month day]. intros [Hm Hd].
  split_months Hm; cbn in *; leap_cases y;
    repeat match goal with
           | |- context [if ?a <? ?b then _ else _] =>
               destruct (Z.ltb_spec a b); cbn
           end;
    rewrite ?L; lia.
Qed.

Lemma valueOf_prev_day (d : Date) :
  valid_date d -> valueOf (prev_day d) = valueOf d - 1.
Proof.
  destruct d as [y m dd]. unfold valid_date, prev_day, valueOf, daysInMonth.
  cbn [year month day]. intros [Hm Hd].
  split_months Hm; cbn in *; leap_cases y;
    repeat match goal with
           | |- context [if ?a <? ?b then _ else _] =>
               destruct (Z.ltb_spec a b); cbn
           end;
    rewrite ?L; try lia; Z.div_mod_to_equations; lia.
Qed.

Lemma valid_prev_day (d : Date) : valid_date d -> valid_date (prev_day d).
Proof.
  destruct d as [y m dd]. unfold valid_date, prev_day, daysInMonth.
  cbn [year month day]. intros [Hm Hd].
  split_months Hm; cbn in *; leap_cases y;
    repeat match goal with
           | |- context [if ?a <? ?b then _ else _] =>
               destruct (Z.ltb_spec a b); cbn
           end;
    rewrite ?L; lia.
Qed.

Local Transparent Z.mul Z.div Z.modulo.

Lemma iter_next_day (y m : Z) (k : nat) :
  1 + Z.of_nat k <= daysInMonth y m ->
  Nat.iter k next_day (mkDate y m 1) = mkDate y m (1 + Z.of_nat k).
Proof.
  induction k as [|k IH]; intros Hk.
  - reflexivity.
  - rewrite Nat.iter_succ, IH by lia. unfold next_day. cbn [year month day].
    destruct (Z.ltb_spec (1 + Z.of_nat k) (daysInMonth y m)); [|lia].
    f_equal. lia.
Qed.

Lemma setDate_succ (d : Date) :
  valid_date d -> setDate d (day d + 1) = next_day d.
Proof.
  destruct d as [y m dd]. unfold valid_date, setDate, MakeDay, addDays.
  cbn [year month day]. intros [Hm Hd].
  rewrite Z.div_small, Z.mod_small, Z.add_0_r by lia.
  destruct (Z.leb_spec 0 (dd + 1 - 1)); [|lia].
  replace (Z.to_nat (dd + 1 - 1)) with (S (Z.to_nat (dd - 1))) by lia.
  rewrite Nat.iter_succ, iter_next_day by lia.
  f_equal. f_equal. lia.
Qed.

Lemma calculateDays_loop_spec (fuel : nat) :
  forall (cur e : Date) (total : Z),
    valid_date cur ->
    valueOf e - valueOf cur + 1 <= Z.of_nat fuel ->
    calculateDays_loop fuel cur e total
    = Ok (total + Z.max 0 (valueOf e - valueOf cur + 1)).
Proof.
  induction fuel as [|fuel IH]; intros cur e total Hv Hf;
    cbn [calculateDays_loop]; unfold Date_leb;
    destruct (Z.leb_spec (valueOf cur) (valueOf e)).
  - lia.
  - f_equal. lia.
  - rewrite setDate_succ by assumption.
    rewrite IH.
    + rewrite valueOf_next_day by assumption. f_equal. lia.
    + now apply valid_next_day.
    + rewrite valueOf_next_day by assumption. lia.
  - f_equal. lia.
Qed.

Lemma calculateDays_spec (s e : Date) :
  valid_date s ->
  calculateDays s e = Ok (Z.max 0 (valueOf e - valueOf s + 1)).
Proof.
  intros Hv. unfold calculateDays.
  rewrite calculateDays_loop_spec by (assumption || lia). reflexivity.
Qed.

Lemma MakeDay_first (y m : Z) :
  0 <= m <= 11 -> MakeDay y m 1 = mkDate y m 1.
Proof.
  intros Hm. unfold MakeDay, addDays.
  rewrite Z.div_small, Z.mod_small, Z.add_0_r by lia. reflexivity.
Qed.

Lemma MakeDay_next (y m : Z) :
  0 <= m <= 11 -> MakeDay y (m + 1) 1 = nextMonthFirst y m.
Proof.
  intros Hm. unfold MakeDay, addDays, nextMonthFirst.
  destruct (Z.ltb_spec m 11).
  - rewrite Z.div_small, Z.mod_small, Z.add_0_r by lia. reflexivity.
  - replace m with 11 by lia. reflexivity.
Qed.

Lemma addDays_back (d : Date) : addDays (0 - 1) d = prev_day d.
Proof. reflexivity. Qed.

Lemma MakeDay_last (y m : Z) :
  0 <= m <= 11 -> MakeDay y (m + 1) 0 = mkDate y m (daysInMonth y m).
Proof.
  intros Hm. unfold MakeDay. rewrite addDays_back.
  destruct (Z.ltb_spec m 11).
  - rewrite Z.div_small, Z.mod_small, Z.add_0_r by lia.
    unfold prev_day. cbn [year month day].
    destruct (Z.ltb_spec 0 (m + 1)); [|lia].
    rewrite Z.ltb_irrefl.
    replace (m + 1 - 1) with m by lia. reflexivity.
  - replace m with 11 by lia.
    change ((11 + 1) / 12) with 1. change ((11 + 1) mod 12) with 0.
    unfold prev_day. cbn [year month day].
    change (1 <? 1) with false. change (0 <? 0) with false. cbv iota.
    change (daysInMonth y 11) with 31. f_equal. lia.
Qed.

Lemma Date_new_eq (y m dt : Z) :
  100 <= y -> Date_new y m dt = MakeDay y m dt.
Proof.
  intros Hy. unfold Date_new.
  destruct (Z.leb_spec y 99); [lia|]. now rewrite andb_false_r.
Qed.

Lemma valueOf_day (y m d : Z) :
  valueOf (mkDate y m d) = valueOf (mkDate y m 1) + d - 1.
Proof. unfold valueOf. cbn [year month day]. lia. Qed.

Lemma daysInMonth_bounds (y m : Z) : 28 <= daysInMonth y m <= 31.
Proof.
  unfold daysInMonth.
  destruct (m =? 1); [destruct (isLeapYear y)|
                      destruct ((m =? 3) || (m =? 5) || (m =? 8) || (m =? 10))];
    lia.
Qed.

Lemma valueOf_nextMonthFirst (y m : Z) :
  0 <= m <= 11 ->
  valueOf (nextMonthFirst y m) = valueOf (mkDate y m 1) + daysInMonth y m.
Proof.
  intros Hm.
  assert (Hv : valid_date (mkDate y m (daysInMonth y m))).
  { pose proof (daysInMonth_bounds y m).
    unfold valid_date. cbn [year month day]. lia. }
  pose proof (valueOf_next_day _ Hv) as E.
  rewrite (valueOf_day y m (daysInMonth y m)) in E.
  replace (next_day (mkDate y m (daysInMonth y m))) with (nextMonthFirst y m)
    in E; [lia|].
  unfold next_day, nextMonthFirst. cbn [year month day].
  now rewrite Z.ltb_irrefl.
Qed.

Local Opaque Z.mul Z.div Z.modulo.

Lemma valueOf_year_mono (a b : Date) :
  valid_date a -> valid_date b -> year a < year b -> valueOf a < valueOf b.
Proof.
  destruct a as [y1 m1 d1], b as [y2 m2 d2].
  unfold valid_date. cbn [year month day]. intros [Hm1 Hd1] [Hm2 Hd2] Hy.
  pose proof (daysInMonth_bounds y1 m1).
  rewrite (valueOf_day y1 m1 d1), (valueOf_day y2 m2 d2).
  assert (valueOf (mkDate y1 m1 1) + 31 <= valueOf (mkDate (y1 + 1) 0 1)).
  { unfold valueOf. cbn [year month day].
    split_months Hm1; cbn; Z.div_mod_to_equations; lia. }
  assert (valueOf (mkDate (y1 + 1) 0 1) <= valueOf (mkDate y2 0 1)).
  { unfold valueOf. cbn. Z.div_mod_to_equations. lia. }
  assert (valueOf (mkDate y2 0 1) <= valueOf (mkDate y2 m2 1)).
  { unfold valueOf. cbn [year month day].
    split_months Hm2; cbn; Z.div_mod_to_equations; lia. }
  lia.
Qed.

Local Transparent Z.mul Z.div Z.modulo.

Lemma nextMonthFirst_shape (y m : Z) :
  nextMonthFirst y m
  = mkDate (year (nextMonthFirst y m)) (month (nextMonthFirst y m)) 1.
Proof. unfold nextMonthFirst. now destruct (m <? 11). Qed.

Lemma nextMonthFirst_range (y m : Z) :
  100 <= y -> 0 <= m <= 11 ->
  100 <= year (nextMonthFirst y m) /\ 0 <= month (nextMonthFirst y m) <= 11.
Proof.
  intros Hy Hm. unfold nextMonthFirst.
  destruct (Z.ltb_spec m 11); cbn [year month]; lia.
Qed.

Lemma monthlyData_loop_segments (fuel : nat) :
  forall (y m : Z) (endd : Date),
    100 <= y -> 0 <= m <= 11 ->
    valueOf endd - valueOf (mkDate y m 1) + 1 <= Z.of_nat fuel ->
    exists ms,
      monthlyData_loop fuel (mkDate y m 1) endd = Ok ms
      /\ segments endd y m ms.
Proof.
  induction fuel as [|fuel IH]; intros y m endd Hy Hm Hf;
    cbn [monthlyData_loop]; unfold Date_leb;
    destruct (Z.leb_spec (valueOf (mkDate y m 1)) (valueOf endd)).
  - lia.
  - exists []. split; [reflexivity|]. now constructor.
  - cbn [year month day].
    unfold setMonth. cbn [year month day].
    rewrite Date_new_eq, MakeDay_last, MakeDay_next by assumption.
    destruct (nextMonthFirst_range y m Hy Hm) as [Hy' Hm'].
    pose proof (valueOf_nextMonthFirst y m Hm) as Hn.
    pose proof (daysInMonth_bounds y m).
    rewrite (nextMonthFirst_shape y m) in Hn |- *.
    destruct (IH _ _ endd Hy' Hm') as (ms & E & S); [lia|].
    rewrite E. cbn [bind]. eexists. split; [reflexivity|].
    now constructor.
  - exists []. split; [reflexivity|]. now constructor.
Qed.

Lemma valueOf_lastOfMonth (y m : Z) :
  0 <= m <= 11 ->
  valueOf (lastOfMonth y m) + 1 = valueOf (nextMonthFirst y m).
Proof.
  intros Hm. rewrite valueOf_nextMonthFirst by assumption.
  unfold lastOfMonth. rewrite valueOf_day. lia.
Qed.

Lemma year_lower_bound (a b : Date) :
  valid_date a -> valid_date b -> valueOf a <= valueOf b -> year a <= year b.
Proof.
  intros Ha Hb Hab. destruct (Z.le_gt_cases (year a) (year b)); [assumption|].
  pose proof (valueOf_year_mono b a Hb Ha). lia.
Qed.

Lemma valid_first (y m : Z) : 0 <= m <= 11 -> valid_date (mkDate y m 1).
Proof.
  intros Hm. pose proof (daysInMonth_bounds y m).
  unfold valid_date. cbn [year month day]. lia.
Qed.

Lemma valid_lastOfMonth (y m : Z) :
  0 <= m <= 11 -> valid_date (lastOfMonth y m).
Proof.
  intros Hm. pose proof (daysInMonth_bounds y m).
  unfold valid_date, lastOfMonth. cbn [year month day]. lia.
Qed.

Lemma next_month_after (d : Date) :
  valid_date d -> 100 <= year d ->
  Date_leb (Date_new (year d) (month d + 1) 1) d = false.
Proof.
  intros Hv Hy. pose proof Hv as [Hm Hd].
  rewrite Date_new_eq, MakeDay_next by assumption.
  unfold Date_leb. apply Z.leb_gt.
  rewrite valueOf_nextMonthFirst by assumption.
  destruct d as [y m dd]. cbn [year month day] in *.
  rewrite (valueOf_day y m dd). lia.
Qed.

Lemma segments_flags (endd : Date) (y m : Z) (ms : list MonthInfo) :
  valid_date endd ->
  segments endd y m ms ->
  map (fun mi => shouldApply monthly (monthEnd mi) endd) ms = lastFlags ms.
Proof.
  intros Hv S. induction S as [y m Hlt | y m rest Hy Hm Hle S IH].
  - reflexivity.
  - cbn [map lastFlags]. f_equal; [|exact IH].
    cbn [monthEnd shouldApply]. unfold segmentEnd, Date_gtb.
    pose proof (valueOf_lastOfMonth y m Hm) as HL.
    rewrite (nextMonthFirst_shape y m) in HL.
    destruct (Z.ltb_spec (valueOf endd) (valueOf (lastOfMonth y m))).
    + rewrite next_month_after.
      * inversion S; subst; [reflexivity|lia].
      * assumption.
      * pose proof (year_lower_bound _ _ (valid_first y m Hm) Hv Hle) as Hb.
        cbn [year] in Hb. lia.
    + cbn [year month lastOfMonth].
      rewrite Date_new_eq, MakeDay_next by assumption.
      rewrite (nextMonthFirst_shape y m). unfold Date_leb.
      inversion S; subst.
      * now apply Z.leb_gt.
      * now apply Z.leb_le.
Qed.

Lemma segments_days (endd : Date) (y m : Z) (ms : list MonthInfo) :
  segments endd y m ms ->
  fold_right Z.add 0 (map segmentDays ms)
  = Z.max 0 (valueOf endd - valueOf (mkDate y m 1) + 1).
Proof.
  intros S. induction S as [y m Hlt | y m rest Hy Hm Hle S IH].
  - cbn. lia.
  - cbn [map fold_right]. rewrite IH.
    unfold segmentDays. cbn [monthStart monthEnd].
    pose proof (valueOf_lastOfMonth y m Hm) as HL.
    rewrite (nextMonthFirst_shape y m) in HL.
    unfold segmentEnd, Date_gtb.
    destruct (Z.ltb_spec (valueOf endd) (valueOf (lastOfMonth y m))); lia.
Qed.

Lemma segments_valid (endd : Date) (y m : Z) (ms : list MonthInfo) :
  segments endd y m ms ->
  Forall (fun mi => valid_date (monthStart mi)
                    /\ valueOf (monthStart mi) <= valueOf (monthEnd mi)) ms.
Proof.
  intros S. induction S as [y m Hlt | y m rest Hy Hm Hle S IH].
  - constructor.
  - constructor; [|exact IH]. cbn [monthStart monthEnd].
    split; [now apply valid_first|].
    unfold segmentEnd, Date_gtb.
    destruct (Z.ltb_spec (valueOf endd) (valueOf (lastOfMonth y m)));
      [assumption|].
    unfold lastOfMonth. rewrite (valueOf_day y m (daysInMonth y m)).
    pose proof (daysInMonth_bounds y m). lia.
Qed.

(** * Tier splitting and the ledger *)

Local Open Scope Q_scope.


Lemma Qltb_true (a b : Q) : Qltb a b = true <-> a < b.
Proof.
  unfold Qltb. rewrite negb_true_iff.
  destruct (Qle_bool b a) eqn:E.
  - apply Qle_bool_iff in E. split; [discriminate|]. intros H.
    exfalso. apply (Qlt_not_le _ _ H E).
  - split; [|reflexivity]. intros _. apply Qnot_le_lt. intros H.
    apply Qle_bool_iff in H. congruence.
Qed.

Lemma Qltb_false (a b : Q) : Qltb a b = false <-> b <= a.
Proof.
  unfold Qltb. rewrite negb_false_iff. apply Qle_bool_iff.
Qed.

Lemma Qle_bool_false (a b : Q) : Qle_bool a b = false <-> b < a.
Proof.
  rewrite <- Qltb_true. unfold Qltb. now rewrite negb_true_iff.
Qed.

Lemma split_loop_done (p processed lo : Q) (ch : list InterestTier.t) :
  chain lo ch -> p <= processed -> split_loop p ch processed = Ok [].
Proof.
  intros C Hp. apply Qle_bool_iff in Hp.
  destruct C as [lo lo' t E _ M | lo lo' hi t rest E _ M EM _ _];
    cbn [split_loop]; unfold tier_max_of; rewrite E, M; cbn [bind];
    rewrite ?EM; cbn [bind]; now rewrite Hp.
Qed.

Lemma split_loop_chain (p : Q) (ch : list InterestTier.t) (lo : Q) :
  chain lo ch ->
  forall processed, processed == lo -> lo <= p ->
    exists allocs,
      split_loop p ch processed = Ok allocs
      /\ allocated allocs == p - lo.
Proof.
  induction 1 as [lo lo' t E El M | lo lo' hi t rest E El M EM Hlh C IH];
    intros processed Hpr Hlo; cbn [split_loop]; unfold tier_max_of;
    rewrite E, M; cbn [bind]; rewrite ?EM; cbn [bind].
  - destruct (Qle_bool p processed) eqn:B.
    + apply Qle_bool_iff in B. exists []. split; [reflexivity|].
      unfold allocated. cbn. lra.
    + apply Qle_bool_false in B.
      assert (F : Qltb p lo' = false) by (apply Qltb_false; lra).
      rewrite F. unfold tier_amount.
      assert (G : Qle_bool lo' p = true) by (apply Qle_bool_iff; lra).
      rewrite G.
      assert (T : Qltb 0 (p - processed) = true) by (apply Qltb_true; lra).
      rewrite T. cbn [split_loop bind]. eexists. split; [reflexivity|].
      unfold allocated. cbn. lra.
  - destruct (Qle_bool p processed) eqn:B.
    + apply Qle_bool_iff in B. exists []. split; [reflexivity|].
      unfold allocated. cbn. lra.
    + apply Qle_bool_false in B.
      assert (F : Qltb p lo' = false) by (apply Qltb_false; lra).
      rewrite F. unfold tier_amount, Decimal_min.
      destruct (Qltb (p - processed) (hi - processed)) eqn:D.
      * apply Qltb_true in D.
        assert (T : Qltb 0 (p - processed) = true) by (apply Qltb_true; lra).
        rewrite T.
        rewrite (split_loop_done p (processed + (p - processed)) hi rest C)
          by lra.
        cbn [bind]. eexists. split; [reflexivity|].
        unfold allocated. cbn. lra.
      * apply Qltb_false in D.
        assert (T : Qltb 0 (hi - processed) = true) by (apply Qltb_true; lra).
        rewrite T.
        destruct (IH (processed + (hi - processed))) as (al & R & S);
          [lra|lra|].
        rewrite R. cbn [bind]. eexists. split; [reflexivity|].
        unfold allocated in *. cbn. lra.
Qed.

Lemma numeric_prefix_no_space (s : string) (x : Q * string) :
  numeric_prefix s = Some x -> skip_spaces s = s.
Proof.
  destruct s as [|c r]; [reflexivity|].
  destruct c as [[] [] [] [] [] [] [] []]; try reflexivity;
    cbn; discriminate.
Qed.

Lemma Decimal_parseFloat (s : string) (q : Q) :
  Decimal_of_string s = Ok q -> parseFloat s = Some q.
Proof.
  unfold Decimal_of_string, parseFloat.
  destruct (numeric_prefix s) as [[v r]|] eqn:E; [|discriminate].
  rewrite (numeric_prefix_no_space s _ E), E.
  destruct r; [|discriminate]. intros [= ->]. reflexivity.
Qed.

Lemma tier_lt_before (a b : InterestTier.t) :
  tier_lt a b -> tier_before a b = true /\ tier_before b a = false.
Proof.
  unfold tier_lt, tier_before.
  destruct (parseFloat (InterestTier.min a)) as [x|];
    destruct (parseFloat (InterestTier.min b)) as [y|]; try contradiction.
  intros H. split.
  - apply Qle_bool_iff. lra.
  - now apply Qle_bool_false.
Qed.

Lemma chain_sorted (lo : Q) (ch : list InterestTier.t) :
  chain lo ch ->
  StronglySorted tier_lt ch
  /\ Forall (fun t => exists x,
               parseFloat (InterestTier.min t) = Some x /\ lo <= x) ch.
Proof.
  induction 1 as [lo lo' t E El M | lo lo' hi t rest E El M EM Hlh C IH].
  - apply Decimal_parseFloat in E. split.
    + repeat constructor.
    + constructor; [|constructor]. exists lo'. split; [assumption|lra].
  - apply Decimal_parseFloat in E. destruct IH as [IS IF]. split.
    + constructor; [assumption|].
      eapply Forall_impl; [|exact IF]. intros b (x & Ex & Hx).
      unfold tier_lt. rewrite E, Ex. lra.
    + constructor.
      * exists lo'. split; [assumption|lra].
      * eapply Forall_impl; [|exact IF]. intros b (x & Ex & Hx).
        exists x. split; [assumption|lra].
Qed.

Section SortedInsertion.

Variables (A : Type) (R : A -> A -> Prop).

Lemma StronglySorted_middle (c1 c2 : list A) (a : A) :
  StronglySorted R (c1 ++ a :: c2) ->
  StronglySorted R (c1 ++ c2)
  /\ Forall (fun b => R b a) c1 /\ Forall (R a) c2.
Proof.
  induction c1 as [|b c1 IH]; cbn [app]; intros S.
  - inversion S; subst. repeat split; [assumption|constructor|assumption].
  - inversion S as [|? ? S' F]; subst.
    destruct (IH S') as (S1 & F1 & F2).
    apply Forall_app in F. destruct F as [Fa Fb].
    inversion Fb; subst.
    repeat split; [|constructor; assumption|assumption].
    constructor; [assumption|]. apply Forall_app. now split.
Qed.

End SortedInsertion.

Lemma insert_tier_middle (a : InterestTier.t) (c1 c2 : list InterestTier.t) :
  Forall (fun b => tier_lt b a) c1 -> Forall (tier_lt a) c2 ->
  insert_tier a (c1 ++ c2) = c1 ++ a :: c2.
Proof.
  intros F1 F2. induction F1 as [|b c1 Hb F1 IH]; cbn [app insert_tier].
  - destruct F2 as [|b c2 Hb F2]; [reflexivity|].
    cbn [insert_tier]. now rewrite (proj1 (tier_lt_before _ _ Hb)).
  - rewrite (proj2 (tier_lt_before _ _ Hb)). now rewrite IH.
Qed.

Lemma sortTiers_sorted_perm (l : list InterestTier.t) :
  forall ch, StronglySorted tier_lt ch -> Permutation l ch ->
             sortTiers l = ch.
Proof.
  induction l as [|a l IH]; intros ch S P.
  - apply Permutation_nil in P. now subst.
  - assert (I : In a ch) by (eapply Permutation_in; [exact P|now left]).
    apply in_split in I. destruct I as (c1 & c2 & ->).
    apply Permutation_cons_app_inv in P.
    destruct (StronglySorted_middle _ _ _ _ _ S) as (S' & F1 & F2).
    cbn [sortTiers fold_right]. fold (sortTiers l).
    rewrite (IH _ S' P). now apply insert_tier_middle.
Qed.

Lemma ledger_from_ext (b b' : Q) (rows : list MonthlyBreakdown) :
  b == b' -> ledger_from b rows -> ledger_from b' rows.
Proof.
  destruct rows as [|row rest]; [trivial|].
  cbn [ledger_from]. intros E (C & A & L). repeat split; try assumption.
  lra.
Qed.

Section LedgerFacts.

Variable pow_frac : Decimal -> Decimal -> Decimal.

Lemma processMonths_ledger (tiers : list InterestTier.t)
    (it : InterestType) (at_ : ApplyType) (endd : Date)
    (months : list MonthInfo) :
  forall acc acc' rows,
    processMonths pow_frac tiers it at_ endd months acc = Ok (acc', rows) ->
    ledger_from (cumulativeInterest acc + accruedSoFar acc) rows
    /\ cumulativeInterest acc' + accruedSoFar acc'
       == cumulativeInterest acc + accruedSoFar acc
          + sumQ (map interest rows)
    /\ currentBalance acc' - cumulativeInterest acc'
       == currentBalance acc - cumulativeInterest acc.
Proof.
  induction months as [|mi months IH]; intros acc acc' rows;
    cbn [processMonths].
  - intros [= <- <-]. cbn. repeat split; lra.
  - destruct (calculateDays _ _) as [dd|]; [|discriminate]. cbn [bind].
    destruct (splitDecimalByTiers _ _) as [sp|]; [|discriminate].
    cbn [bind].
    destruct (sumInterest _ _ _ _ _) as [mI|]; [|discriminate].
    cbn [bind].
    destruct (shouldApply _ _ _);
      match goal with
      | |- context [processMonths _ _ _ _ _ _ ?a] =>
          destruct (processMonths pow_frac tiers it at_ endd months a)
            as [[acc2 rows2]|] eqn:E; [|discriminate]
      end;
      cbn [bind fst snd]; intros [= <- <-];
      destruct (IH _ _ _ E) as (L & S & B);
      cbn [cumulativeInterest accruedSoFar currentBalance] in L, S, B;
      cbn [ledger_from map sumQ fold_right cumulative interest applied
             accrued];
      fold (sumQ (map interest rows2)).
    + split; [|split].
      * split; [lra|]. split; [reflexivity|].
        eapply ledger_from_ext; [|exact L]. lra.
      * lra.
      * lra.
    + split; [|split].
      * split; [lra|]. split; [discriminate|]. exact L.
      * lra.
      * lra.
Qed.

Lemma ledger_from_nth (rows : list MonthlyBreakdown) :
  forall base n row,
    ledger_from base rows ->
    nth_error rows n = Some row ->
    cumulative row == base + sumQ (map interest (firstn (S n) rows))
    /\ (applied row = true -> accrued row == 0).
Proof.
  induction rows as [|r rows IH]; intros base n row L E.
  - destruct n; discriminate.
  - destruct L as (C & A & L). destruct n as [|n].
    + injection E as <-. split; [|exact A]. cbn. lra.
    + destruct (IH _ _ _ L E) as [C' A']. split; [|exact A'].
      rewrite C'. change (firstn (S (S n)) (r :: rows))
        with (r :: firstn (S n) rows).
      cbn [map sumQ fold_right]. fold (sumQ (map interest (firstn (S n) rows))).
      lra.
Qed.

End LedgerFacts.

Lemma parses_ok (s : string) :
  parses s = true -> exists q, Decimal_of_string s = Ok q.
Proof.
  unfold parses. destruct (Decimal_of_string s) as [q|]; [|discriminate].
  now exists q.
Qed.

Lemma tier_max_of_ok (t : InterestTier.t) :
  wellFormedTier t = true -> exists m, tier_max_of t = Ok m.
Proof.
  unfold wellFormedTier, tier_max_of.
  rewrite !andb_true_iff, orb_true_iff, negb_true_iff.
  intros [[_ [H|H]] _].
  - rewrite H. now eexists.
  - destruct (parses_ok _ H) as [q ->].
    destruct (truthy _); now eexists.
Qed.

Lemma insert_tier_Forall (P : InterestTier.t -> Prop) (a : InterestTier.t)
    (l : list InterestTier.t) :
  P a -> Forall P l -> Forall P (insert_tier a l).
Proof.
  intros Ha F. induction F as [|b l Hb F IH]; cbn [insert_tier].
  - now repeat constructor.
  - destruct (tier_before a b); repeat constructor; assumption.
Qed.

Lemma sortTiers_Forall (P : InterestTier.t -> Prop)
    (l : list InterestTier.t) :
  Forall P l -> Forall P (sortTiers l).
Proof.
  induction 1 as [|a l Ha F IH]; cbn; [constructor|].
  now apply insert_tier_Forall.
Qed.

Lemma split_loop_ok (p : Q) (l : list InterestTier.t) :
  Forall (fun t => wellFormedTier t = true) l ->
  forall processed, exists allocs,
    split_loop p l processed = Ok allocs /\ Forall rateParses allocs.
Proof.
  induction 1 as [|t l Ht F IH]; intros processed; cbn [split_loop].
  - exists []. now split.
  - destruct (tier_max_of_ok t Ht) as [mx ->].
    pose proof Ht as Ht'. unfold wellFormedTier in Ht'.
    rewrite !andb_true_iff in Ht'. destruct Ht' as [[Hmin _] Hrate].
    destruct (parses_ok _ Hmin) as [lo ->]. cbn [bind].
    destruct (Qle_bool p processed); [exists []; now split|].
    destruct (Qltb p lo); [apply IH|].
    destruct (Qltb 0 _); [|apply IH].
    destruct (IH (processed + tier_amount p processed lo mx))
      as (al & -> & Fa).
    cbn [bind]. eexists. split; [reflexivity|].
    constructor; [exact Hrate|exact Fa].
Qed.

Section Totality.

Variable pow_frac : Decimal -> Decimal -> Decimal.

Lemma periodInterest_ok (it : InterestType) (a : Decimal) (rate : string)
    (d : Z) :
  parses rate = true -> exists i, periodInterest pow_frac it a rate d = Ok i.
Proof.
  intros H. destruct (parses_ok _ H) as [r E].
  destruct it; cbn; unfold calculateSimpleInterest,
    calculateCompoundInterest; rewrite E; cbn [bind]; now eexists.
Qed.

Lemma sumInterest_ok (it : InterestType) (d : Z) (sp : list TierResult.t) :
  Forall rateParses sp ->
  forall m, exists i, sumInterest pow_frac it sp d m = Ok i.
Proof.
  induction 1 as [|e sp He F IH]; intros m; cbn [sumInterest].
  - now eexists.
  - destruct (periodInterest_ok it (TierResult.amount e) _ d He) as [i ->].
    cbn [bind]. apply IH.
Qed.

Lemma tierInterests_ok (it : InterestType) (d : Z)
    (sp : list TierResult.t) :
  Forall rateParses sp ->
  exists res, tierInterests pow_frac it sp d = Ok res.
Proof.
  induction 1 as [|e sp He F IH]; cbn [tierInterests].
  - now eexists.
  - destruct (periodInterest_ok it (TierResult.amount e) _ d He) as [i ->].
    destruct IH as [res ->]. cbn [bind]. now eexists.
Qed.

Lemma processMonths_ok (tiers : list InterestTier.t) (it : InterestType)
    (at_ : ApplyType) (endd : Date) (months : list MonthInfo) :
  Forall (fun t => wellFormedTier t = true) tiers ->
  Forall (fun mi => valid_date (monthStart mi)
                    /\ (valueOf (monthStart mi) <= valueOf (monthEnd mi))%Z)
    months ->
  forall acc, exists acc' rows,
    processMonths pow_frac tiers it at_ endd months acc = Ok (acc', rows)
    /\ map days rows = map segmentDays months
    /\ map applied rows
       = map (fun mi => shouldApply at_ (monthEnd mi) endd) months.
Proof.
  intros Wt. induction 1 as [|mi months [Hv Hle] F IH]; intros acc;
    cbn [processMonths].
  - exists acc, []. now repeat split.
  - rewrite calculateDays_spec by assumption. cbn [bind].
    unfold splitDecimalByTiers.
    destruct (split_loop_ok (currentBalance acc) (sortTiers tiers)
                (sortTiers_Forall _ _ Wt) 0) as (sp & -> & Fs).
    cbn [bind].
    destruct (sumInterest_ok it
                (Z.max 0 (valueOf (monthEnd mi) - valueOf (monthStart mi) + 1))
                sp Fs 0) as [mI ->].
    cbn [bind].
    destruct (shouldApply at_ (monthEnd mi) endd) eqn:SA;
      match goal with
      | |- context [processMonths _ _ _ _ _ _ ?a] =>
          destruct (IH a) as (acc2 & rows2 & -> & D & Ap)
      end;
      cbn [bind fst snd]; eexists; eexists;
      (split; [reflexivity|]);
      cbn [map days applied]; rewrite D, Ap, SA; unfold segmentDays;
      (split; [f_equal; lia|reflexivity]).
Qed.

End Totality.

Section EngineRun.

Variable pow_frac : Decimal -> Decimal -> Decimal.

Lemma centuryYear_range (y : Z) : (0 <= y -> 100 <= centuryYear y)%Z.
Proof.
  unfold centuryYear.
  destruct (Z.leb_spec 0 y), (Z.leb_spec y 99); cbn [andb]; lia.
Qed.

Lemma centuryYear_id (y : Z) : (100 <= y)%Z -> centuryYear y = y.
Proof.
  intros H. unfold centuryYear. destruct (Z.leb_spec y 99); [lia|].
  now rewrite andb_false_r.
Qed.

Lemma monthlyData_segments (s e : Date) :
  valid_date s -> (0 <= year s)%Z ->
  exists ms,
    monthlyData s e = Ok ms
    /\ segments e (centuryYear (year s)) (month s) ms.
Proof.
  intros [Hm _] Hy. unfold monthlyData.
  change (Date_new (year s) (month s) 1)
    with (MakeDay (centuryYear (year s)) (month s) 1).
  rewrite MakeDay_first by assumption.
  apply monthlyData_loop_segments;
    [now apply centuryYear_range|assumption|lia].
Qed.

Lemma engine_run (dep : string) (s e : Date) (tiers : list InterestTier.t)
    (it : InterestType) (at_ : ApplyType) :
  validRequest dep s e tiers ->
  exists r acc ms principal,
    calculateInterest pow_frac dep s e tiers it at_ = Ok r
    /\ Decimal_of_string dep = Ok principal
    /\ segments e (centuryYear (year s)) (month s) ms
    /\ runLedger pow_frac dep s e tiers it at_
       = Ok (totalDays r, acc, breakdown r)
    /\ processMonths pow_frac tiers it at_ e ms
         (mkAccumulators principal 0 0) = Ok (acc, breakdown r)
    /\ totalDays r = Z.max 0 (valueOf e - valueOf s + 1)
    /\ map days (breakdown r) = map segmentDays ms
    /\ map applied (breakdown r)
       = map (fun mi => shouldApply at_ (monthEnd mi) e) ms
    /\ totalInterest r = cumulativeInterest acc + accruedSoFar acc
    /\ finalAmount r = currentBalance acc + accruedSoFar acc
    /\ accruedInterest r = accruedSoFar acc.
Proof.
  intros (Hp & Hs & He & Hy & Ht).
  destruct (parses_ok _ Hp) as [principal EP].
  rewrite forallb_forall in Ht. rewrite <- Forall_forall in Ht.
  destruct (monthlyData_segments s e Hs Hy) as (ms & EM & S).
  destruct (processMonths_ok pow_frac tiers it at_ e ms Ht
              (segments_valid _ _ _ _ S) (mkAccumulators principal 0 0))
    as (acc & rows & EPm & D & A).
  destruct (split_loop_ok principal (sortTiers tiers)
              (sortTiers_Forall _ _ Ht) 0) as (sp & ES & Fs).
  destruct (tierInterests_ok pow_frac it
              (Z.max 0 (valueOf e - valueOf s + 1)) sp Fs) as [res ER].
  eexists; exists acc, ms, principal.
  unfold calculateInterest, runLedger, splitAmountByTiers,
    splitDecimalByTiers.
  rewrite EP. cbn [bind]. rewrite calculateDays_spec by assumption.
  cbn [bind]. rewrite EM. cbn [bind]. rewrite EPm. cbn [bind fst snd].
  rewrite ES. cbn [bind]. rewrite ER. cbn [bind].
  split; [reflexivity|].
  cbn [breakdown totalDays totalInterest finalAmount accruedInterest].
  repeat split; assumption || reflexivity.
Qed.

End EngineRun.

(** * The shared tiers array *)

Lemma preserves_refl (h : Store) : preserves h h.
Proof. split; [lia|reflexivity]. Qed.

Lemma preserves_trans (h1 h2 h3 : Store) :
  preserves h1 h2 -> preserves h2 h3 -> preserves h1 h3.
Proof.
  intros [L1 D1] [L2 D2]. split; [lia|].
  intros r Hr. rewrite D2 by lia. now apply D1.
Qed.

Lemma assign_length (h : Store) :
  forall r a, List.length (assign h r a) = List.length h.
Proof.
  induction h as [|b h IH]; intros [|r] a; cbn; try reflexivity.
  now rewrite IH.
Qed.

Lemma deref_assign_same (h : Store) :
  forall r a, (r < List.length h)%nat -> deref (assign h r a) r = a.
Proof.
  induction h as [|b h IH]; intros [|r] a Hr; cbn in *; try lia.
  - reflexivity.
  - apply IH. lia.
Qed.

Lemma deref_assign_other (h : Store) :
  forall r r' a, r <> r' -> deref (assign h r a) r' = deref h r'.
Proof.
  induction h as [|b h IH]; intros [|r] [|r'] a Hne; cbn; try reflexivity.
  - contradiction.
  - apply IH. congruence.
Qed.

Lemma deref_new (h : Store) (a : list InterestTier.t) :
  deref (h ++ [a]) (List.length h) = a.
Proof. unfold deref. now rewrite app_nth2, Nat.sub_diag by lia. Qed.

Lemma deref_old (h : Store) (a : list InterestTier.t) (r : ref) :
  (r < List.length h)%nat -> deref (h ++ [a]) r = deref h r.
Proof. intros Hr. unfold deref. now rewrite app_nth1 by lia. Qed.

Lemma splitDecimalByTiersS_pure (p : Decimal) (tiers : ref) (h : Store) :
  (tiers < List.length h)%nat ->
  exists h',
    splitDecimalByTiersS p tiers h
    = (h', splitDecimalByTiers p (deref h tiers))
    /\ preserves h h'.
Proof.
  intros Hr. unfold splitDecimalByTiersS, bindS, spread, Array_sort,
    readArray, liftS.
  rewrite deref_assign_same by (rewrite length_app; cbn; lia).
  rewrite deref_new. eexists. split; [reflexivity|]. split.
  - rewrite assign_length, length_app. lia.
  - intros r Hlt. rewrite deref_assign_other by lia.
    now apply deref_old.
Qed.

Section SharedEngineFacts.

Variable pow_frac : Decimal -> Decimal -> Decimal.

Lemma processMonthsS_pure (tiers : ref) (it : InterestType)
    (at_ : ApplyType) (endd : Date) (months : list MonthInfo) :
  forall (acc : Accumulators) (h : Store),
    (tiers < List.length h)%nat ->
    exists h',
      processMonthsS pow_frac tiers it at_ endd months acc h
      = (h', processMonths pow_frac (deref h tiers) it at_ endd months acc)
      /\ preserves h h'.
Proof.
  induction months as [|mi months IH]; intros acc h Hr;
    cbn [processMonthsS processMonths].
  - exists h. split; [reflexivity|apply preserves_refl].
  - unfold bindS at 1. unfold liftS at 1.
    destruct (calculateDays _ _) as [dd|err]; cbn [bind];
      [|exists h; split; [reflexivity|apply preserves_refl]].
    unfold bindS at 1.
    destruct (splitDecimalByTiersS_pure (currentBalance acc) tiers h Hr)
      as (h1 & -> & P1).
    destruct (splitDecimalByTiers _ _) as [sp|err]; cbn [bind];
      [|exists h1; split; [reflexivity|assumption]].
    unfold bindS at 1. unfold liftS at 1.
    destruct (sumInterest _ _ _ _ _) as [mI|err]; cbn [bind];
      [|exists h1; split; [reflexivity|assumption]].
    assert (Hr1 : (tiers < List.length h1)%nat) by (destruct P1; lia).
    assert (D1 : deref h1 tiers = deref h tiers) by (now apply P1).
    destruct (shouldApply _ _ _); unfold bindS;
      match goal with
      | |- context [processMonthsS _ _ _ _ _ _ ?a h1] =>
          destruct (IH a h1 Hr1) as (h2 & -> & P2)
      end;
      rewrite D1;
      match goal with
      | |- context [processMonths _ _ _ _ _ _ ?a] =>
          destruct (processMonths pow_frac (deref h tiers) it at_ endd
                      months a) as [r|err]
      end;
      cbn [bind liftS]; unfold liftS; exists h2;
      (split; [reflexivity|now apply (preserves_trans h h1 h2)]).
Qed.

Lemma calculateInterestS_pure (dep : string) (s e : Date) (tiers : ref)
    (it : InterestType) (at_ : ApplyType) (h : Store) :
  (tiers < List.length h)%nat ->
  exists h',
    calculateInterestS pow_frac dep s e tiers it at_ h
    = (h', calculateInterest pow_frac dep s e (deref h tiers) it at_)
    /\ preserves h h'.
Proof.
  intros Hr. unfold calculateInterestS, calculateInterest, runLedger,
    splitAmountByTiers.
  unfold bindS at 1. unfold liftS at 1.
  destruct (Decimal_of_string dep) as [principal|err]; cbn [bind];
    [|exists h; split; [reflexivity|apply preserves_refl]].
  unfold bindS at 1. unfold liftS at 1.
  destruct (calculateDays s e) as [dd|err]; cbn [bind];
    [|exists h; split; [reflexivity|apply preserves_refl]].
  unfold bindS at 1. unfold liftS at 1.
  destruct (monthlyData s e) as [ms|err]; cbn [bind];
    [|exists h; split; [reflexivity|apply preserves_refl]].
  unfold bindS at 1.
  destruct (processMonthsS_pure tiers it at_ e ms
              (mkAccumulators principal 0%Q 0%Q) h Hr) as (h1 & -> & P1).
  destruct (processMonths _ _ _ _ _ _ _) as [[acc rows]|err]; cbn [bind];
    [|exists h1; split; [reflexivity|assumption]].
  assert (Hr1 : (tiers < List.length h1)%nat) by (destruct P1; lia).
  assert (D1 : deref h1 tiers = deref h tiers) by (now apply P1).
  unfold bindS at 1. unfold liftS at 1. unfold bindS at 1.
  destruct (splitDecimalByTiersS_pure principal tiers h1 Hr1)
    as (h2 & -> & P2).
  rewrite D1. cbn [fst snd].
  destruct (splitDecimalByTiers _ _) as [sp|err]; cbn [bind];
    [|exists h2; split; [reflexivity|now apply (preserves_trans h h1 h2)]].
  unfold bindS, liftS.
  destruct (tierInterests _ _ _ _) as [res|err]; cbn [bind];
    exists h2; (split; [reflexivity|now apply (preserves_trans h h1 h2)]).
Qed.

End SharedEngineFacts.

(** * Properties of the splitter, the interest formulas and the engine *)

Local Open Scope string_scope.

Lemma contiguousFrom_chain (ch : list InterestTier.t) :
  forall lo, contiguousFrom lo ch = true -> chain lo ch.
Proof.
  induction ch as [|t rest IH]; intros lo; cbn [contiguousFrom];
    [discriminate|].
  destruct (Decimal_of_string (InterestTier.min t)) as [lo'|] eqn:E;
    [|discriminate].
  rewrite andb_true_iff. intros [Hq H]. apply Qeq_bool_iff in Hq.
  destruct rest as [|t' rest'].
  - apply negb_true_iff in H. now apply (chain_last lo lo' t).
  - rewrite andb_true_iff in H. destruct H as [M H].
    destruct (Decimal_of_string (InterestTier.max t)) as [hi|] eqn:EM;
      [|discriminate].
    rewrite andb_true_iff in H. destruct H as [Hlt H].
    apply Qltb_true in Hlt.
    apply (chain_cons lo lo' hi t (t' :: rest')); try assumption.
    now apply IH.
Qed.

Lemma boundsParse_head (p : Q) (t : InterestTier.t)
    (rest : list InterestTier.t) (processed : Q) :
  boundsParse t = true -> p <= processed ->
  split_loop p (t :: rest) processed = Ok [].
Proof.
  unfold boundsParse. rewrite andb_true_iff, orb_true_iff, negb_true_iff.
  intros [Hmin Hmax] Hp. apply Qle_bool_iff in Hp.
  destruct (parses_ok _ Hmin) as [lo E].
  cbn [split_loop]. rewrite E. cbn [bind]. unfold tier_max_of.
  destruct Hmax as [M|M].
  - rewrite M. cbn [bind]. now rewrite Hp.
  - destruct (parses_ok _ M) as [hi EM]. rewrite EM.
    destruct (truthy _); cbn [bind]; now rewrite Hp.
Qed.

Lemma lastFlags_length (A B : Type) (l : list A) :
  forall l' : list B,
    List.length l = List.length l' -> lastFlags l = lastFlags l'.
Proof.
  induction l as [|a l IH]; intros [|b l'] H; try discriminate;
    [reflexivity|].
  cbn [lastFlags]. injection H as H. rewrite (IH l' H).
  destruct l, l'; try discriminate; reflexivity.
Qed.

Lemma lastFlags_split (A : Type) (f : A -> bool) (l : list A) :
  l <> [] -> map f l = lastFlags l ->
  exists init x,
    l = (init ++ [x])%list /\ f x = false
    /\ Forall (fun y => f y = true) init.
Proof.
  induction l as [|a l IH]; intros Hne H; [contradiction|].
  cbn [map lastFlags] in H. injection H as Ha H.
  destruct l as [|b l].
  - exists [], a. repeat split; [assumption|constructor].
  - destruct (IH ltac:(discriminate) H) as (init & x & E & Fx & Fi).
    exists (a :: init), x. rewrite E. repeat split; [assumption|].
    now constructor.
Qed.

Lemma segments_nonempty (e : Date) (y m : Z) (ms : list MonthInfo) :
  segments e y m ms -> (valueOf (mkDate y m 1) <= valueOf e)%Z -> ms <> [].
Proof. intros S H. inversion S; subst; [lia|discriminate]. Qed.

(** C2, as the engine has it: under the monthly cadence every ledger entry
    but the last is applied and the last one is not, whatever the day of the
    month on which the range ends. *)
Theorem monthly_applies_all_but_last
    (pow_frac : Decimal -> Decimal -> Decimal) (dep : string) (s e : Date)
    (tiers : list InterestTier.t) (it : InterestType)
    (Hreq : validRequest dep s e tiers)
    (Hyear : (100 <= year s)%Z)
    (Hrange : (valueOf s <= valueOf e)%Z) :
  exists r init final,
    calculateInterest pow_frac dep s e tiers it monthly = Ok r
    /\ breakdown r = (init ++ [final])%list
    /\ applied final = false
    /\ Forall (fun row => applied row = true) init.
Proof.
  destruct (engine_run pow_frac dep s e tiers it monthly Hreq)
    as (r & acc & ms & principal & E & _ & S & _ & _ & _ & D & A & _).
  destruct Hreq as (_ & Hs & He & _ & _).
  rewrite centuryYear_id in S by assumption.
  rewrite (segments_flags e _ _ ms He S) in A.
  assert (L : List.length (breakdown r) = List.length ms).
  { rewrite <- (length_map days), D. apply length_map. }
  rewrite <- (lastFlags_length _ _ _ _ L) in A.
  assert (N : breakdown r <> []).
  { intros N. rewrite N in L. destruct ms; [|discriminate].
    apply (segments_nonempty e _ _ [] S); [|reflexivity].
    destruct s as [y m d]. destruct Hs as [_ Hd].
    cbn [year month day] in *. rewrite (valueOf_day y m d) in Hrange. lia. }
  destruct (lastFlags_split _ applied _ N A) as (init & x & B & Fx & Fi).
  now exists r, init, x.
Qed.

Lemma monthly_applies_all_but_last_witness :
  exists r init final,
    calculateInterest samplePow "1000" (mkDate 2024 0 15) (mkDate 2024 2 31)
      sampleTiers simple monthly = Ok r
    /\ breakdown r = (init ++ [final])%list
    /\ applied final = false
    /\ Forall (fun row => applied row = true) init.
Proof.
  apply monthly_applies_all_but_last.
  - repeat split; try reflexivity; cbn; lia.
  - cbn. lia.
  - vm_compute. discriminate.
Defined.

(** C2 fails when the range ends on 2024-03-31, the last day of March:
    the March entry, the final one, is not applied. *)
Lemma monthly_month_end_not_applied :
  exists r,
    calculateInterest samplePow "1000" (mkDate 2024 0 15) (mkDate 2024 2 31)
      sampleTiers simple monthly = Ok r
    /\ map applied (breakdown r) = [true; true; false].
Proof. vm_compute. eexists. split; reflexivity. Qed.

(** The day counts of the ledger entries add up to the days from the first
    of the start month to the end date: the days of the start month before
    [startDate] are counted as well. *)
Lemma ledger_days_from_first_of_month
    (pow_frac : Decimal -> Decimal -> Decimal) (dep : string) (s e : Date)
    (tiers : list InterestTier.t) (it : InterestType) (at_ : ApplyType) :
  validRequest dep s e tiers -> (100 <= year s)%Z ->
  (valueOf s <= valueOf e)%Z ->
  exists r,
    calculateInterest pow_frac dep s e tiers it at_ = Ok r
    /\ totalDays r = (valueOf e - valueOf s + 1)%Z
    /\ fold_right Z.add 0%Z (map days (breakdown r))
       = (totalDays r + (day s - 1))%Z.
Proof.
  intros Hreq Hyear Hrange.
  destruct (engine_run pow_frac dep s e tiers it at_ Hreq)
    as (r & acc & ms & principal & E & _ & S & _ & _ & T & D & _).
  rewrite centuryYear_id in S by assumption.
  exists r. split; [assumption|]. rewrite D, (segments_days _ _ _ _ S), T.
  destruct s as [y m d]. cbn [year month day] in *.
  rewrite (valueOf_day y m d) in *.
  destruct Hreq as (_ & [_ Hd] & _). cbn [year month day] in Hd. lia.
Qed.

(** C1 at the range 2024-01-15 to 2024-03-10: the range has 56 days and the
    ledger entries count 31, 29 and 10 days, 70 in all, since the January
    segment starts on 2024-01-01. *)
Theorem first_segment_starts_on_first_of_month :
  exists r,
    calculateInterest samplePow "1000" (mkDate 2024 0 15) (mkDate 2024 2 10)
      sampleTiers simple monthly = Ok r
    /\ totalDays r = 56%Z
    /\ map days (breakdown r) = [31; 29; 10]%Z
    /\ fold_right Z.add 0%Z (map days (breakdown r)) = 70%Z.
Proof. vm_compute. eexists. repeat split; reflexivity. Qed.

(** C3 at a tier without a rate, at a tier without a lower bound and at a
    tier whose lower bound is not a number: the engine's splitter gives the
    first its allocation and throws on the other two, where the copy in the
    daily breakdown table skips the first two. *)
Theorem splitter_keeps_malformed_tier :
  splitAmountByTiers "1000" [openTier "0" EmptyString]
  = Ok [TierResult.mk "0" EmptyString EmptyString 1000 0]
  /\ splitAmountByTiers "1000" [openTier EmptyString "1"; openTier "0" "2"]
     = Throw DecimalError
  /\ splitAmountByTiers "1000" [openTier "abc" "1"; openTier "0" "2"]
     = Throw DecimalError
  /\ DailyBreakdownTable.splitAmountByTiers "1000"
       [openTier "0" EmptyString]
     = Ok []
  /\ DailyBreakdownTable.splitAmountByTiers "1000"
       [openTier EmptyString "1"; openTier "0" "2"]
     = Ok [TierResult.mk "0" EmptyString "2" 1000 0].
Proof. repeat split; reflexivity. Qed.

Lemma Decimal_pow_one (pow_frac : Decimal -> Decimal -> Decimal)
    (x y : Decimal) :
  y == 1 -> Decimal_pow pow_frac x y == x.
Proof.
  intros Hy. unfold Decimal_pow.
  assert (N : Qeq_bool y 0 = false).
  { destruct (Qeq_bool y 0) eqn:E; [|reflexivity].
    apply Qeq_bool_iff in E. lra. }
  rewrite N. destruct (Qeq_bool x 0) eqn:Z0.
  - apply Qeq_bool_iff in Z0. lra.
  - rewrite (Qred_complete y 1 Hy). reflexivity.
Qed.






(** Bands that leave a gap between one upper bound and the next lower bound
    do not cover the amounts in the gap: of 1000000.005 only 1000000 is
    allocated. *)
Lemma split_gap_loses_remainder :
  exists allocs,
    splitAmountByTiers "1000000.005"
      [InterestTier.mk "0" "1000000.00" "2.00"; openTier "1000000.01" "0.50"]
    = Ok allocs
    /\ allocated allocs == 1000000.
Proof. eexists. split; reflexivity. Qed.











